(** * websocket-graceful-shutdown: connection registry, relay and drain loop

    A shallow embedding of [app/core/connection_manager.py],
    [app/core/lifecycle.py] and the health route of [app/api/routes.py].

    Coroutines become computations in a state-and-exception monad over a
    [World]: the worker's [ConnectionManager], the Redis keyspace, the
    lifespan resources, and the tapes that script everything the code cannot
    decide itself (whether a store round trip succeeds, what a socket call
    raises, which token [uuid4] draws, how much time passes at a suspension
    point, what other workers do to the shared set, what the Pub/Sub poll
    returns).  Mutations made before an exception is raised are kept, as in
    Python. *)

From stdpp Require Import base gmap sets list strings pretty.

Local Open Scope Z_scope.
#[local] Set Warnings "-clear-no-such-hyp".

(** ** Values *)

(** A [WebSocket] is keyed by object identity in [_ws_to_id]; the model
    names the object by a number. *)
Abbreviation WebSocket := nat (only parsing).

(** The exceptions the code distinguishes.  [RedisConnectionError] is
    [redis.exceptions.ConnectionError], which derives from [Exception] only
    (neither from [RuntimeError] nor from the builtin [ConnectionError]);
    [OtherError] stands for any exception none of the handlers names. *)
Inductive exn :=
  | WebSocketDisconnect
  | ConnectionResetError
  | BrokenPipeError
  | RuntimeError
  | RedisConnectionError
  | OtherError.

Global Instance exn_eq_dec : EqDecision exn.
Proof. solve_decision. Defined.

Inductive result (A : Type) :=
  | Ok (a : A)
  | Raise (e : exn)
  | OutOfFuel.
Arguments Ok {A} a.
Arguments Raise {A} e.
Arguments OutOfFuel {A}.

(** Commands sent to the shared store, in the order they are issued. *)
Inductive command :=
  | DEL (key : string)
  | SADD (key member : string)
  | SREM (key member : string)
  | SCARD (key : string)
  | PING
  | SUBSCRIBE (channel : string).

Inductive level := INFO | WARNING.

(** One constructor per logging call of the source, with the values its
    f-string interpolates. *)
Inductive log_event :=
  | WsConnected (worker : Z) (local global : nat)
  | WsDisconnected (worker : Z) (local global : nat)
  | LocalBroadcast (worker : Z) (message : string) (local : nat)
  | RuntimeErrorRemoving (worker : Z)
  | RedisHealthCheckFailed
  | ConnectingToRedis
  | StartupComplete
  | ShutdownComplete
  | ListenerStarted (channel : string)
  | ListenerStopping
  | ShutdownInitiated (worker : Z) (timeout : Z)
  | AllClosed (worker : Z)
  | ForceShutdown (worker : Z) (global : nat)
  | ShutdownProgress (worker : Z) (global : nat) (remaining : Z).

(** What one [pubsub.get_message(timeout=...)] yields. *)
Inductive polled :=
  | PollTimeout
  | PollMessage (data : string)
  | PollRaise (e : exn).

(** One iteration of the relay as the environment scripts it: [signal] says
    that another task ran [stop_event.set()] while the relay was suspended
    in this iteration, [arrival] is what the poll returns. *)
Record tick := Tick { signal : bool; arrival : polled }.

Inductive task :=
  | NoTask
  | TaskRunning
  | TaskDone (failure : option exn).

(** ** The connection manager and the world around it *)

Record ConnectionManager := Manager {
  _redis_set_key : string;
  _connections : list WebSocket;
  _ws_to_id : gmap WebSocket string;
  worker_id : Z
}.

Record World := MkWorld {
  (** [app.state.manager] *)
  manager : ConnectionManager;
  (** Redis keyspace; only set-valued keys are used *)
  store : gmap string (gset string);
  (** commands issued so far, oldest first *)
  wire : list command;
  (** outcome of the coming store round trips, [true] when the reply
      arrives; an exhausted tape means the store is reachable *)
  net : list bool;
  (** per socket, what its coming [accept]/[send_text] calls raise; an
      exhausted tape means the call succeeds *)
  peer : gmap WebSocket (list (option exn));
  (** every [send_text] attempted, with its outcome, oldest first *)
  frames : list (WebSocket * string * option exn);
  (** the tokens the coming [uuid4()] calls draw *)
  uuids : list string;
  (** wall clock, in microseconds *)
  clock : Z;
  (** extra time that passes at the coming suspension points *)
  lag : list N;
  (** the keyspace as the other tasks and workers leave it during the
      coming [asyncio.sleep] calls; exhausted: left as it is *)
  drift : list (gmap string (gset string));
  log : list (level * log_event);
  stop_event : bool;
  (** the coming iterations of the relay *)
  inbox : list tick;
  (** [os.getpid()] *)
  pid : Z;
  (** channel of the live subscription, if any *)
  pubsub : option string;
  redis_open : bool;
  listener_task : task
}.

Definition upd_manager (f : ConnectionManager → ConnectionManager) (w : World) : World :=
  MkWorld (f (manager w)) (store w) (wire w) (net w) (peer w) (frames w) (uuids w) (clock w)
    (lag w) (drift w) (log w) (stop_event w) (inbox w) (pid w) (pubsub w) (redis_open w)
    (listener_task w).
Definition upd_store (f : gmap string (gset string) → gmap string (gset string))
    (w : World) : World :=
  MkWorld (manager w) (f (store w)) (wire w) (net w) (peer w) (frames w) (uuids w) (clock w)
    (lag w) (drift w) (log w) (stop_event w) (inbox w) (pid w) (pubsub w) (redis_open w)
    (listener_task w).
Definition upd_wire (f : list command → list command) (w : World) : World :=
  MkWorld (manager w) (store w) (f (wire w)) (net w) (peer w) (frames w) (uuids w) (clock w)
    (lag w) (drift w) (log w) (stop_event w) (inbox w) (pid w) (pubsub w) (redis_open w)
    (listener_task w).
Definition upd_net (f : list bool → list bool) (w : World) : World :=
  MkWorld (manager w) (store w) (wire w) (f (net w)) (peer w) (frames w) (uuids w) (clock w)
    (lag w) (drift w) (log w) (stop_event w) (inbox w) (pid w) (pubsub w) (redis_open w)
    (listener_task w).
Definition upd_peer (f : gmap WebSocket (list (option exn)) → gmap WebSocket (list (option exn)))
    (w : World) : World :=
  MkWorld (manager w) (store w) (wire w) (net w) (f (peer w)) (frames w) (uuids w) (clock w)
    (lag w) (drift w) (log w) (stop_event w) (inbox w) (pid w) (pubsub w) (redis_open w)
    (listener_task w).
Definition upd_frames
    (f : list (WebSocket * string * option exn) → list (WebSocket * string * option exn))
    (w : World) : World :=
  MkWorld (manager w) (store w) (wire w) (net w) (peer w) (f (frames w)) (uuids w) (clock w)
    (lag w) (drift w) (log w) (stop_event w) (inbox w) (pid w) (pubsub w) (redis_open w)
    (listener_task w).
Definition upd_uuids (f : list string → list string) (w : World) : World :=
  MkWorld (manager w) (store w) (wire w) (net w) (peer w) (frames w) (f (uuids w)) (clock w)
    (lag w) (drift w) (log w) (stop_event w) (inbox w) (pid w) (pubsub w) (redis_open w)
    (listener_task w).
Definition upd_clock (f : Z → Z) (w : World) : World :=
  MkWorld (manager w) (store w) (wire w) (net w) (peer w) (frames w) (uuids w) (f (clock w))
    (lag w) (drift w) (log w) (stop_event w) (inbox w) (pid w) (pubsub w) (redis_open w)
    (listener_task w).
Definition upd_lag (f : list N → list N) (w : World) : World :=
  MkWorld (manager w) (store w) (wire w) (net w) (peer w) (frames w) (uuids w) (clock w)
    (f (lag w)) (drift w) (log w) (stop_event w) (inbox w) (pid w) (pubsub w) (redis_open w)
    (listener_task w).
Definition upd_drift (f : list (gmap string (gset string)) → list (gmap string (gset string)))
    (w : World) : World :=
  MkWorld (manager w) (store w) (wire w) (net w) (peer w) (frames w) (uuids w) (clock w)
    (lag w) (f (drift w)) (log w) (stop_event w) (inbox w) (pid w) (pubsub w) (redis_open w)
    (listener_task w).
Definition upd_log (f : list (level * log_event) → list (level * log_event))
    (w : World) : World :=
  MkWorld (manager w) (store w) (wire w) (net w) (peer w) (frames w) (uuids w) (clock w)
    (lag w) (drift w) (f (log w)) (stop_event w) (inbox w) (pid w) (pubsub w) (redis_open w)
    (listener_task w).
Definition upd_stop_event (f : bool → bool) (w : World) : World :=
  MkWorld (manager w) (store w) (wire w) (net w) (peer w) (frames w) (uuids w) (clock w)
    (lag w) (drift w) (log w) (f (stop_event w)) (inbox w) (pid w) (pubsub w) (redis_open w)
    (listener_task w).
Definition upd_inbox (f : list tick → list tick) (w : World) : World :=
  MkWorld (manager w) (store w) (wire w) (net w) (peer w) (frames w) (uuids w) (clock w)
    (lag w) (drift w) (log w) (stop_event w) (f (inbox w)) (pid w) (pubsub w) (redis_open w)
    (listener_task w).
Definition upd_pubsub (f : option string → option string) (w : World) : World :=
  MkWorld (manager w) (store w) (wire w) (net w) (peer w) (frames w) (uuids w) (clock w)
    (lag w) (drift w) (log w) (stop_event w) (inbox w) (pid w) (f (pubsub w)) (redis_open w)
    (listener_task w).
Definition upd_redis_open (f : bool → bool) (w : World) : World :=
  MkWorld (manager w) (store w) (wire w) (net w) (peer w) (frames w) (uuids w) (clock w)
    (lag w) (drift w) (log w) (stop_event w) (inbox w) (pid w) (pubsub w) (f (redis_open w))
    (listener_task w).
Definition upd_listener_task (f : task → task) (w : World) : World :=
  MkWorld (manager w) (store w) (wire w) (net w) (peer w) (frames w) (uuids w) (clock w)
    (lag w) (drift w) (log w) (stop_event w) (inbox w) (pid w) (pubsub w) (redis_open w)
    (f (listener_task w)).

Definition upd_connections (f : list WebSocket → list WebSocket) (m : ConnectionManager)
    : ConnectionManager :=
  Manager (_redis_set_key m) (f (_connections m)) (_ws_to_id m) (worker_id m).
Definition upd_ws_to_id (f : gmap WebSocket string → gmap WebSocket string)
    (m : ConnectionManager) : ConnectionManager :=
  Manager (_redis_set_key m) (_connections m) (f (_ws_to_id m)) (worker_id m).

(** ** The monad of coroutines *)

Definition M (A : Type) : Type := World → result A * World.

Global Instance M_ret : MRet M := λ A a w, (Ok a, w).
Global Instance M_bind : MBind M := λ A B f m w,
  match m w with
  | (Ok a, w') => f a w'
  | (Raise e, w') => (Raise e, w')
  | (OutOfFuel, w') => (OutOfFuel, w')
  end.

Definition raise {A} (e : exn) : M A := λ w, (Raise e, w).
Definition gets {A} (f : World → A) : M A := λ w, (Ok (f w), w).
Definition modify (f : World → World) : M unit := λ w, (Ok tt, f w).

(** [try: body / except ...]: [handler] returns the clause that matches the
    exception, or [None] when no clause does and it propagates. *)
Definition try_except {A} (body : M A) (handler : exn → option (M A)) : M A := λ w,
  match body w with
  | (Raise e, w') =>
      match handler e with
      | Some h => h w'
      | None => (Raise e, w')
      end
  | r => r
  end.

Definition eval {A} (m : M A) (w : World) : result A := fst (m w).
Definition exec {A} (m : M A) (w : World) : World := snd (m w).

(** [for x in l: body x] *)
Fixpoint for_each {A} (l : list A) (body : A → M unit) : M unit :=
  match l with
  | [] => mret tt
  | x :: l' => body x;; for_each l' body
  end.

(** ** Primitives of the environment *)

Definition logger_info (e : log_event) : M unit := modify (upd_log (λ l, l ++ [(INFO, e)])).
Definition logger_warning (e : log_event) : M unit := modify (upd_log (λ l, l ++ [(WARNING, e)])).

(** Every [await] on the outside world lets time pass. *)
Definition suspend : M unit :=
  modify (λ w, upd_lag (drop 1) (upd_clock (λ t, t + Z.of_N (hd 0%N (lag w))) w)).

Definition round_trip (c : command) : M unit :=
  modify (upd_wire (λ l, l ++ [c]));;
  suspend;;
  up ← gets (λ w, hd true (net w));
  modify (upd_net (drop 1));;
  if up : bool then mret tt else raise RedisConnectionError.

Definition members (key : string) (s : gmap string (gset string)) : gset string :=
  default ∅ (s !! key).
Definition smembers (key : string) (w : World) : gset string := members key (store w).

(** [SADD] creates the key when it is missing; [SREM] of the last member
    removes the key. *)
Definition store_sadd (key member : string) (s : gmap string (gset string))
    : gmap string (gset string) :=
  <[key := {[member]} ∪ members key s]> s.
Definition store_srem (key member : string) (s : gmap string (gset string))
    : gmap string (gset string) :=
  let rest := members key s ∖ {[member]} in
  if decide (rest = ∅) then delete key s else <[key := rest]> s.

Definition redis_scard (key : string) : M nat :=
  round_trip (SCARD key);;
  gets (λ w, size (smembers key w)).
Definition redis_sadd (key member : string) : M unit :=
  round_trip (SADD key member);;
  modify (upd_store (store_sadd key member)).
Definition redis_srem (key member : string) : M unit :=
  round_trip (SREM key member);;
  modify (upd_store (store_srem key member)).
Definition redis_delete (key : string) : M unit :=
  round_trip (DEL key);;
  modify (upd_store (delete key)).
Definition redis_ping : M bool :=
  round_trip PING;;
  mret true.

Definition next_outcome (ws : WebSocket) (w : World) : option exn :=
  match peer w !! ws with
  | Some (o :: _) => o
  | _ => None
  end.

Definition transport_call (ws : WebSocket) : M unit :=
  suspend;;
  o ← gets (next_outcome ws);
  modify (upd_peer (alter (drop 1) ws));;
  match o with
  | None => mret tt
  | Some e => raise e
  end.

Definition accept (ws : WebSocket) : M unit := transport_call ws.
Definition send_text (ws : WebSocket) (message : string) : M unit :=
  o ← gets (next_outcome ws);
  modify (upd_frames (λ l, l ++ [(ws, message, o)]));;
  transport_call ws.

Definition uuid4 : M string :=
  u ← gets (λ w, hd "" (uuids w));
  modify (upd_uuids (drop 1));;
  mret u.

(** ** connection_manager.py *)

(** [list.remove]: drops the first occurrence. *)
Fixpoint list_remove (x : WebSocket) (l : list WebSocket) : list WebSocket :=
  match l with
  | [] => []
  | y :: l' => if decide (x = y) then l' else y :: list_remove x l'
  end.

(** Truth value of a [str]: the empty string is falsy. *)
Definition truthy (s : string) : bool :=
  match s with
  | EmptyString => false
  | _ => true
  end.

Definition local_active_count (m : ConnectionManager) : nat := length (_connections m).

Definition global_active_count : M nat :=
  key ← gets (λ w, _redis_set_key (manager w));
  redis_scard key.

(** [f'{self.worker_id}:{uuid4()}'] *)
Definition format_conn_id (wid : Z) (u : string) : string := pretty wid +:+ ":" +:+ u.

Definition connect (websocket : WebSocket) : M unit :=
  accept websocket;;
  wid ← gets (λ w, worker_id (manager w));
  u ← uuid4;
  let conn_id := format_conn_id wid u in
  modify (upd_manager (upd_connections (λ l, l ++ [websocket])));;
  modify (upd_manager (upd_ws_to_id <[websocket := conn_id]>));;
  key ← gets (λ w, _redis_set_key (manager w));
  redis_sadd key conn_id;;
  global_count ← global_active_count;
  local ← gets (λ w, local_active_count (manager w));
  logger_info (WsConnected wid local global_count).

Definition disconnect (websocket : WebSocket) : M unit :=
  conn_id ← gets (λ w, _ws_to_id (manager w) !! websocket);
  modify (upd_manager (upd_ws_to_id (delete websocket)));;
  present ← gets (λ w, bool_decide (websocket ∈ _connections (manager w)));
  (if present : bool
   then modify (upd_manager (upd_connections (list_remove websocket)))
   else mret tt);;
  match conn_id with
  | Some id =>
      if truthy id
      then key ← gets (λ w, _redis_set_key (manager w)); redis_srem key id
      else mret tt
  | None => mret tt
  end;;
  global_count ← global_active_count;
  wid ← gets (λ w, worker_id (manager w));
  local ← gets (λ w, local_active_count (manager w));
  logger_info (WsDisconnected wid local global_count).

Definition on_send_failure (websocket : WebSocket) (e : exn) : option (M unit) :=
  match e with
  | WebSocketDisconnect => Some (disconnect websocket)
  | ConnectionResetError | BrokenPipeError => Some (disconnect websocket)
  | RuntimeError =>
      Some (wid ← gets (λ w, worker_id (manager w));
            logger_warning (RuntimeErrorRemoving wid);;
            disconnect websocket)
  | _ => None
  end.

Definition broadcast_local (message : string) : M unit :=
  wid ← gets (λ w, worker_id (manager w));
  local ← gets (λ w, local_active_count (manager w));
  logger_info (LocalBroadcast wid message local);;
  snapshot ← gets (λ w, _connections (manager w));
  for_each snapshot (λ ws, try_except (send_text ws message) (on_send_failure ws)).

(** ** config.py *)

(** The options the core reads; [REDIS_PUBSUB_POLL_INTERVAL] only bounds the
    wait of a poll, which the [inbox] tape scripts. *)
Record Config := MkConfig {
  REDIS_BROADCAST_CHANNEL : string;
  WS_CONNECTIONS_KEY : string;
  GRACEFUL_SHUTDOWN_TIMEOUT : Z;
  GRACEFUL_SHUTDOWN_LOG_INTERVAL : Z
}.

Definition default_config : Config :=
  MkConfig "ws:broadcast" "ws:connections" 30 5.

(** ** lifecycle.py *)

(** The coming iteration; an exhausted [inbox] means polls that time out. *)
Definition next_tick (w : World) : tick := hd (Tick false PollTimeout) (inbox w).

Definition get_message : M (option string) :=
  suspend;;
  t ← gets next_tick;
  modify (upd_inbox (drop 1));;
  modify (upd_stop_event (λ b, b || signal t));;
  match arrival t with
  | PollTimeout => mret None
  | PollMessage data => mret (Some data)
  | PollRaise e => raise e
  end.

(** [str(data)]: with [decode_responses=True] the payload of a channel
    message is already a [str]. *)
Definition str (data : string) : string := data.

(** The rest of one iteration of the relay, from the poll on. *)
Definition listener_body : M unit :=
  msg ← get_message;
  match msg with
  | None => mret tt
  | Some data => broadcast_local (str data)
  end.

(** [while not stop_event.is_set(): ...]; [fuel] bounds the number of times
    the condition is evaluated. *)
Fixpoint listener_loop (fuel : nat) : M unit :=
  match fuel with
  | O => λ w, (OutOfFuel, w)
  | S fuel' =>
      stop ← gets stop_event;
      if stop : bool then mret tt
      else listener_body;; listener_loop fuel'
  end.

Definition _broadcast_listener (cfg : Config) (fuel : nat) : M unit :=
  logger_info (ListenerStarted (REDIS_BROADCAST_CHANNEL cfg));;
  listener_loop fuel;;
  logger_info ListenerStopping.

(** [asyncio.sleep]: at least the requested time passes, and the other
    tasks and workers run. *)
Definition sleep (seconds : Z) : M unit :=
  modify (upd_clock (λ t, t + Z.max 0 seconds * 1000000));;
  suspend;;
  modify (λ w, upd_drift (drop 1) (upd_store (λ s, hd s (drift w)) w)).



Definition setup_lifespan (cfg : Config) : M unit :=
  logger_info ConnectingToRedis;;
  modify (upd_redis_open (λ _, true));;
  redis_delete (WS_CONNECTIONS_KEY cfg);;
  p ← gets pid;
  modify (upd_manager (λ _, Manager (WS_CONNECTIONS_KEY cfg) [] ∅ p));;
  round_trip (SUBSCRIBE (REDIS_BROADCAST_CHANNEL cfg));;
  modify (upd_pubsub (λ _, Some (REDIS_BROADCAST_CHANNEL cfg)));;
  modify (upd_stop_event (λ _, false));;
  modify (upd_listener_task (λ _, TaskRunning));;
  logger_info StartupComplete.



(** ** routes.py: the health endpoint *)

Record health_response := HealthResponse {
  status : string;
  redis_ok : bool;
  global_active_connections : nat
}.

Definition health : M health_response :=
  ok ← try_except (pong ← redis_ping; mret (pong : bool))
         (λ _, Some (logger_warning RedisHealthCheckFailed;; mret false));
  global_count ← global_active_count;
  let status := if ok : bool then "ok" else "degraded" in
  mret (HealthResponse status ok global_count).

(** ** Sequences of calls on one manager *)

Inductive call :=
  | Connect (websocket : WebSocket)
  | Disconnect (websocket : WebSocket)
  | BroadcastLocal (message : string).

Definition run_call (c : call) : M unit :=
  match c with
  | Connect ws => connect ws
  | Disconnect ws => disconnect ws
  | BroadcastLocal message => broadcast_local message
  end.

(** Each call is made by its own handler: an exception ends that handler,
    the manager lives on and serves the next call. *)
Fixpoint run_calls (cs : list call) (w : World) : World :=
  match cs with
  | [] => w
  | c :: cs' => run_calls cs' (exec (run_call c) w)
  end.

(** Every [connect] of the sequence is on a socket that is not in the local
    registry when the call is made. *)
Fixpoint fresh_connects (cs : list call) (w : World) : Prop :=
  match cs with
  | [] => True
  | c :: cs' =>
      match c with
      | Connect ws => ws ∉ _connections (manager w)
      | _ => True
      end ∧ fresh_connects cs' (exec (run_call c) w)
  end.

Definition registry_call (c : call) : Prop :=
  match c with
  | BroadcastLocal _ => False
  | _ => True
  end.

(** Reference model, after the spec's words: the sockets that have been
    connected (their handshake was accepted by a [connect]) and not yet
    disconnected. *)
Fixpoint connected_not_disconnected (cs : list call) (w : World) (live : gset WebSocket)
    : gset WebSocket :=
  match cs with
  | [] => live
  | c :: cs' =>
      connected_not_disconnected cs' (exec (run_call c) w)
        match c with
        | Connect ws => if decide (next_outcome ws w = None) then {[ws]} ∪ live else live
        | Disconnect ws => live ∖ {[ws]}
        | BroadcastLocal _ => live
        end
  end.

(** A manager as [__init__] leaves it. *)
Definition new_manager (key : string) (wid : Z) : ConnectionManager := Manager key [] ∅ wid.

(** The local registry as [disconnect] and an accepted [connect] leave it. *)
Definition manager_disconnect (ws : WebSocket) (m : ConnectionManager) : ConnectionManager :=
  upd_connections (list_remove ws) (upd_ws_to_id (delete ws) m).
Definition manager_connect (ws : WebSocket) (id : string) (m : ConnectionManager)
    : ConnectionManager :=
  upd_ws_to_id <[ws := id]> (upd_connections (λ l, l ++ [ws]) m).

(** The identifier the next accepted [connect] issues. *)
Definition next_conn_id (w : World) : string :=
  format_conn_id (worker_id (manager w)) (hd "" (uuids w)).




(** ** Notions the statements use *)

(** The handlers of [broadcast_local] catch exactly these. *)
Definition caught (e : exn) : bool :=
  match e with
  | WebSocketDisconnect | ConnectionResetError | BrokenPipeError | RuntimeError => true
  | _ => false
  end.

Definition removes (ws : nat) (w : World) : bool :=
  match next_outcome ws w with
  | Some e => caught e
  | None => false
  end.

(** The messages handed to [broadcast_local], read off its entry log line. *)
Definition forwarded (l : list (level * log_event)) : list string :=
  omap (λ entry, match entry.2 with LocalBroadcast _ message _ => Some message | _ => None end) l.

(** The payloads a run of polls delivers. *)
Definition messages_of (ts : list tick) : list string :=
  omap (λ t, match arrival t with PollMessage data => Some data | _ => None end) ts.





(** A worker right after [ConnectionManager.__init__]: nothing registered,
    an empty store, every call of the environment succeeds. *)
Definition example_world : World :=
  MkWorld (new_manager "ws:connections" 4242) ∅ [] [] ∅ [] ["a"; "b"; "c"] 0 [] [] []
    false [] 4242 None true NoTask.

(** Concrete worlds and call sequences for the examples. *)
Definition churn_calls : list call := [Connect 1; Connect 2; Disconnect 1; Connect 3].


Definition fanout_world : World :=
  upd_peer (λ _, {[2%nat := [Some BrokenPipeError]]})
    (run_calls [Connect 1; Connect 2; Connect 3] example_world).

Definition stale_world : World :=
  upd_store (λ _, {["ws:connections" := {["9:x"; "9:y"]}]}) example_world.


Definition relay_world : World :=
  upd_inbox (λ _, [Tick false (PollMessage "hi"); Tick true PollTimeout;
                   Tick false (PollMessage "late")]) fanout_world.

Definition offline_world : World := upd_net (λ _, [false; false]) example_world.

(** * Proofs *)

(** ** Automation *)

(** The operations are straight-line code over the world: the tactics below
    run one of them on a world split into its fields and case on every
    tape head it reads. *)

Ltac unfold_m :=
  unfold exec, eval, disconnect, connect, global_active_count, redis_srem, redis_sadd,
    redis_scard, redis_delete, redis_ping, round_trip, accept, send_text, transport_call,
    uuid4, suspend, logger_info, logger_warning, mbind, M_bind, mret, M_ret, gets, modify,
    raise, next_outcome, next_conn_id, next_tick.
Ltac run_op w :=
  destruct w as [[mk ml mm mw] wst wwi wne wpe wfr wuu wcl wla wdr wlo wse wib wpi wps wro wlt];
  unfold_m; cbn; repeat (case_match; simplify_eq/=).

Ltac run_body w :=
  destruct w as [[mk ml mm mw] wst wwi wne wpe wfr wuu wcl wla wdr wlo wse wib wpi wps wro wlt];
  unfold removes, caught, try_except, on_send_failure; unfold_m; cbn;
  repeat (case_match; simplify_eq/=).

Ltac run_life w :=
  destruct w as [[mk ml mm mw] wst wwi wne wpe wfr wuu wcl wla wdr wlo wse wib wpi wps wro wlt];
  unfold health, setup_lifespan, try_except, get_message, sleep; unfold_m; cbn;
  repeat (case_match; simplify_eq/=).

Ltac not_in_list :=
  let H := fresh in
  intros H; repeat (apply elem_of_cons in H as [H|H]; [discriminate H|]);
  by apply elem_of_nil in H.
Ltac fresh_connects_by_computation :=
  vm_compute; repeat split; not_in_list.

(** ** The monad *)

Lemma exec_bind {A B} (m : M A) (k : A → M B) w :
  exec (m ≫= k) w =
    match eval m w with
    | Ok a => exec (k a) (exec m w)
    | _ => exec m w
    end.
Proof. unfold exec, eval, mbind, M_bind. by destruct (m w) as [[] ?]. Qed.

Lemma eval_bind {A B} (m : M A) (k : A → M B) w :
  eval (m ≫= k) w =
    match eval m w with
    | Ok a => eval (k a) (exec m w)
    | Raise e => Raise e
    | OutOfFuel => OutOfFuel
    end.
Proof. unfold exec, eval, mbind, M_bind. by destruct (m w) as [[] ?]. Qed.


Lemma for_each_cons {A} (x : A) l body w :
  for_each (x :: l) body w =
    match body x w with
    | (Ok _, w') => for_each l body w'
    | (Raise e, w') => (Raise e, w')
    | (OutOfFuel, w') => (OutOfFuel, w')
    end.
Proof. reflexivity. Qed.

Lemma broadcast_local_unfold msg w :
  broadcast_local msg w =
    for_each (_connections (manager w))
      (λ ws, try_except (send_text ws msg) (on_send_failure ws))
      (upd_log (λ l, l ++ [(INFO, LocalBroadcast (worker_id (manager w)) msg
                                    (local_active_count (manager w)))]) w).
Proof. reflexivity. Qed.

(** ** [list.remove] *)

Lemma list_remove_notin ws l : ws ∉ l → list_remove ws l = l.
Proof.
  induction l as [|y l IH]; [done|]. intros H. simpl.
  case_decide; [set_solver|]. f_equal. apply IH. set_solver.
Qed.


Lemma elem_of_list_remove_sub x ws l : x ∈ list_remove ws l → x ∈ l.
Proof.
  induction l as [|y l IH]; [done|]. simpl.
  case_decide; set_solver.
Qed.



Lemma list_remove_NoDup ws l : NoDup l → NoDup (list_remove ws l).
Proof.
  induction 1 as [|y l Hy Hl IH]; simpl; [constructor|].
  case_decide; [done|]. constructor; [|done].
  intros ?%elem_of_list_remove_sub. done.
Qed.

Lemma list_to_set_list_remove ws l :
  NoDup l → list_to_set (C := gset nat) (list_remove ws l) = list_to_set l ∖ {[ws]}.
Proof.
  induction 1 as [|y l Hy Hl IH]; simpl; [set_solver|].
  case_decide; subst; simpl; [|rewrite IH]; set_solver.
Qed.


(** ** The store *)




(** ** [connect] and [disconnect] *)

Lemma disconnect_manager ws w :
  manager (exec (disconnect ws) w) = manager_disconnect ws (manager w).
Proof.
  run_op w; unfold manager_disconnect, upd_connections, upd_ws_to_id; cbn; try done.
  all: rewrite list_remove_notin; [done|]; by eapply bool_decide_eq_false_1.
Qed.

Lemma disconnect_store ws w :
  store (exec (disconnect ws) w) =
    match _ws_to_id (manager w) !! ws with
    | Some id =>
        if truthy id && hd true (net w)
        then store_srem (_redis_set_key (manager w)) id (store w)
        else store w
    | None => store w
    end.
Proof. run_op w; done. Qed.

Lemma disconnect_wire ws w :
  wire (exec (disconnect ws) w) =
    wire w ++
    match _ws_to_id (manager w) !! ws with
    | Some id =>
        if truthy id
        then SREM (_redis_set_key (manager w)) id ::
             (if hd true (net w) then [SCARD (_redis_set_key (manager w))] else [])
        else [SCARD (_redis_set_key (manager w))]
    | None => [SCARD (_redis_set_key (manager w))]
    end.
Proof. run_op w; by rewrite <- ?app_assoc. Qed.

Lemma disconnect_eval ws w :
  eval (disconnect ws) w =
    match _ws_to_id (manager w) !! ws with
    | Some id =>
        if truthy id
        then if hd true (net w) && hd true (drop 1 (net w))
             then Ok tt else Raise RedisConnectionError
        else if hd true (net w) then Ok tt else Raise RedisConnectionError
    | None => if hd true (net w) then Ok tt else Raise RedisConnectionError
    end.
Proof. run_op w; done. Qed.

Lemma disconnect_frame ws w :
  let w' := exec (disconnect ws) w in
  peer w' = peer w ∧ frames w' = frames w ∧ inbox w' = inbox w ∧
  stop_event w' = stop_event w ∧ uuids w' = uuids w ∧ drift w' = drift w ∧
  (∃ k, net w' = drop k (net w)) ∧ clock w ≤ clock w'.
Proof.
  run_op w; repeat split; try done; try lia.
  all: try (by eexists 0%nat); try (by eexists 1%nat); try (rewrite drop_drop; by eexists).
Qed.


Lemma connect_manager ws w :
  manager (exec (connect ws) w) =
    match next_outcome ws w with
    | None => manager_connect ws (next_conn_id w) (manager w)
    | Some _ => manager w
    end.
Proof. run_op w; done. Qed.



(** C10.  A [disconnect] of a socket that is in neither part of the local
    registry leaves the manager and the store as they were, and still sends
    one [SCARD] to the shared store (the count it logs): it returns normally
    when that round trip succeeds and raises the store's connection error
    when it does not. *)
Theorem disconnect_unknown_round_trip ws w :
  ws ∉ _connections (manager w) →
  _ws_to_id (manager w) !! ws = None →
  let w' := exec (disconnect ws) w in
  manager w' = manager w ∧ store w' = store w ∧
  wire w' = wire w ++ [SCARD (_redis_set_key (manager w))] ∧
  eval (disconnect ws) w = if hd true (net w) then Ok tt else Raise RedisConnectionError.
Proof.
  intros Hl Hm. cbn.
  rewrite disconnect_manager, disconnect_store, disconnect_wire, disconnect_eval, Hm.
  repeat split. destruct (manager w) as [k l m i]; cbn in *.
  unfold manager_disconnect, upd_connections, upd_ws_to_id; cbn.
  by rewrite list_remove_notin, delete_id.
Qed.

(** A socket the manager has never seen, store reachable. *)
Lemma disconnect_unknown_round_trip_witness :
  let w' := exec (disconnect 5) example_world in
(5%nat ∉ _connections (manager example_world)) ∧
  _ws_to_id (manager example_world) !! 5%nat = None ∧
  manager w' = manager example_world ∧ store w' = store example_world ∧
  wire w' = [SCARD "ws:connections"] ∧
  eval (disconnect 5) example_world = Ok tt.
Proof.
  intros w'.
  assert (5%nat ∉ _connections (manager example_world)) as H1 by (by intros ?%elem_of_nil).
  assert (_ws_to_id (manager example_world) !! 5%nat = None) as H2 by done.
  split; [exact H1|]. split; [exact H2|].
  exact (disconnect_unknown_round_trip 5 example_world H1 H2).
Defined.







(** ** The local-registry invariant *)












Lemma run_calls_tracks cs : ∀ w live,
  Forall registry_call cs → fresh_connects cs w →
  NoDup (_connections (manager w)) →
  live = list_to_set (_connections (manager w)) →
  NoDup (_connections (manager (run_calls cs w))) ∧
  connected_not_disconnected cs w live =
    list_to_set (_connections (manager (run_calls cs w))).
Proof.
  induction cs as [|c cs IH]; intros w live Hreg Hfresh Hnd ->; simpl; [done|].
  destruct Hfresh as [Hc Hcs]. apply Forall_cons in Hreg as [Hr Hreg].
  apply IH; [done..| |]; destruct c as [ws|ws|msg]; simpl in *; try done.
  - rewrite connect_manager. destruct (next_outcome ws w); [done|]. cbn.
    apply NoDup_app. split_and!; [done| |apply NoDup_singleton].
    intros x Hx ->%list_elem_of_singleton. done.
  - rewrite disconnect_manager. cbn. by apply list_remove_NoDup.
  - rewrite connect_manager. destruct (next_outcome ws w); [done|].
    rewrite decide_True by done. cbn. rewrite list_to_set_app_L. set_solver.
  - rewrite disconnect_manager. cbn. by rewrite list_to_set_list_remove.
Qed.

(** C1.  For every sequence of [connect] and [disconnect] calls on a
    manager that starts empty, each [connect] being on a socket not in the
    local registry at that time, [local_active_count] equals the number of
    sockets connected and not yet disconnected. *)
Theorem local_active_count_tracks cs w :
  Forall registry_call cs →
  _connections (manager w) = [] →
  fresh_connects cs w →
  local_active_count (manager (run_calls cs w)) =
    size (connected_not_disconnected cs w ∅).
Proof.
  intros Hreg Hnil Hfresh.
  destruct (run_calls_tracks cs w ∅) as [Hnd ->];
    [done..|rewrite Hnil; constructor|by rewrite Hnil|].
  by rewrite size_list_to_set.
Qed.

(** Three sockets connect, one of them leaves in between. *)
Lemma local_active_count_tracks_witness :
  Forall registry_call churn_calls ∧
  _connections (manager example_world) = [] ∧
  fresh_connects churn_calls example_world ∧
  local_active_count (manager (run_calls churn_calls example_world)) =
    size (connected_not_disconnected churn_calls example_world ∅).
Proof.
  assert (Forall registry_call churn_calls) as H1 by (by repeat constructor).
  assert (fresh_connects churn_calls example_world) as H2.
  { fresh_connects_by_computation. }
  split_and!; [done..|]. by apply local_active_count_tracks.
Defined.

(** ** Local fan-out *)

Lemma deliver_effects ws msg w :
  let w' := exec (try_except (send_text ws msg) (on_send_failure ws)) w in
  frames w' = frames w ++ [(ws, msg, next_outcome ws w)] ∧
  peer w' = alter (drop 1) ws (peer w) ∧
  (∃ k, net w' = drop k (net w)) ∧
  inbox w' = inbox w ∧ stop_event w' = stop_event w.
Proof.
  run_body w; repeat split; try done.
  all: try (by eexists 0%nat); try (by eexists 1%nat); try (rewrite drop_drop; by eexists).
Qed.


Lemma deliver_eval ws msg w :
  eval (try_except (send_text ws msg) (on_send_failure ws)) w =
    match next_outcome ws w with
    | None => Ok tt
    | Some e => if caught e then eval (disconnect ws) w else Raise e
    end.
Proof. run_body w; done. Qed.





(** A store that stops answering turns one failed send into an aborted
    fan-out: the socket is gone from the local registry, its identifier
    stays in the store, and the sockets after it are not attempted. *)
Example broadcast_local_store_unreachable :
  let w := upd_net (λ _, [false]) fanout_world in
  let w' := exec (broadcast_local "m") w in
  eval (broadcast_local "m") w = Raise RedisConnectionError ∧
  frames w' = [(1%nat, "m", None); (2%nat, "m", Some BrokenPipeError)] ∧
  _connections (manager w') = [1%nat; 3%nat] ∧
  smembers "ws:connections" w' = {["4242:a"; "4242:b"; "4242:c"]}.
Proof. cbv zeta. split_and!; vm_compute; reflexivity. Qed.

(** ** The health endpoint *)

Lemma health_run w :
  eval health w =
    if hd true (drop 1 (net w))
    then Ok (HealthResponse (if hd true (net w) then "ok" else "degraded") (hd true (net w))
               (size (smembers (_redis_set_key (manager w)) w)))
    else Raise RedisConnectionError.
Proof. run_life w; done. Qed.

(** C8.  What the code does when the shared store is unreachable for the
    whole request (the [PING] and the [SCARD] round trips both fail): the
    failed ping is caught, but the count query that follows is outside the
    [try], so the endpoint raises the store's connection error instead of
    answering with status degraded. *)
Theorem health_store_unreachable w rest :
  net w = false :: false :: rest → eval health w = Raise RedisConnectionError.
Proof. intros Hn. by rewrite health_run, Hn. Qed.

(** Both round trips of the request fail. *)
Lemma health_store_unreachable_witness :
  net offline_world = [false; false] ∧ eval health offline_world = Raise RedisConnectionError.
Proof.
  assert (net offline_world = [false; false]) as H by done.
  split; [exact H|]. exact (health_store_unreachable offline_world [] H).
Defined.

(** The degraded answer of the health endpoint needs a store that fails the
    ping and answers the count query right after. *)
Example health_degraded_when_store_recovers :
  eval health (upd_net (λ _, [false; true]) example_world) =
    Ok (HealthResponse "degraded" false 0).
Proof. by vm_compute. Qed.

(** ** The broadcast relay *)

Lemma forwarded_app l1 l2 : forwarded (l1 ++ l2) = forwarded l1 ++ forwarded l2.
Proof. apply omap_app. Qed.

Lemma deliver_log ws msg w :
  forwarded (log (exec (try_except (send_text ws msg) (on_send_failure ws)) w)) =
    forwarded (log w).
Proof.
  run_body w; rewrite ?forwarded_app; cbn; by rewrite ?app_nil_r.
Qed.

Lemma deliver_terminates ws msg w :
  eval (try_except (send_text ws msg) (on_send_failure ws)) w ≠ OutOfFuel.
Proof.
  rewrite deliver_eval. repeat case_match; try done. rewrite disconnect_eval.
  by repeat case_match.
Qed.

Lemma for_each_deliver_frame msg l : ∀ w,
  let m := for_each l (λ ws, try_except (send_text ws msg) (on_send_failure ws)) in
  eval m w ≠ OutOfFuel ∧
  forwarded (log (exec m w)) = forwarded (log w) ∧
  inbox (exec m w) = inbox w ∧ stop_event (exec m w) = stop_event w.
Proof.
  induction l as [|x l IH]; intros w; cbn zeta; [done|].
  pose proof (deliver_log x msg w) as Hl.
  pose proof (deliver_effects x msg w) as (_ & _ & _ & Hi & Hs).
  pose proof (deliver_terminates x msg w) as Ht.
  unfold exec, eval in *. rewrite for_each_cons.
  destruct (try_except (send_text x msg) (on_send_failure x) w) as [[[]| |] w1]; try done.
  cbn in *. destruct (IH w1) as (? & ? & ? & ?). split_and!; [done|congruence..].
Qed.

Lemma broadcast_local_frame msg w :
  let w' := exec (broadcast_local msg) w in
  eval (broadcast_local msg) w ≠ OutOfFuel ∧
  forwarded (log w') = forwarded (log w) ++ [msg] ∧
  inbox w' = inbox w ∧ stop_event w' = stop_event w.
Proof.
  unfold exec, eval. rewrite broadcast_local_unfold.
  match goal with |- context [for_each ?l ?b ?w0] =>
    destruct (for_each_deliver_frame msg l w0) as (H1 & H2 & H3 & H4) end.
  unfold exec, eval in *. cbn zeta. rewrite H2, H3, H4. split_and!; try done.
  destruct w; cbn. by rewrite forwarded_app.
Qed.

Lemma listener_body_run w :
  let w' := exec listener_body w in
  eval listener_body w ≠ OutOfFuel ∧
  inbox w' = drop 1 (inbox w) ∧
  stop_event w' = stop_event w || signal (next_tick w) ∧
  forwarded (log w') = forwarded (log w) ++ messages_of [next_tick w].
Proof.
  unfold listener_body. cbn zeta. rewrite eval_bind, exec_bind.
  assert (eval get_message w =
            match arrival (next_tick w) with
            | PollTimeout => Ok None | PollMessage d => Ok (Some d) | PollRaise e => Raise e
            end ∧
          inbox (exec get_message w) = drop 1 (inbox w) ∧
          stop_event (exec get_message w) = stop_event w || signal (next_tick w) ∧
          log (exec get_message w) = log w) as (He & Hi & Hs & Hl).
  { unfold next_tick. run_life w; done. }
  rewrite He. unfold messages_of. cbn.
  destruct (arrival (next_tick w)) as [|d|e]; cbn.
  - rewrite app_nil_r. split_and!; try done. by rewrite Hl.
  - destruct (broadcast_local_frame (str d) (exec get_message w)) as (H1 & H2 & H3 & H4).
    rewrite H2, H3, H4, Hl. done.
  - rewrite app_nil_r. split_and!; try done. by rewrite Hl.
Qed.

Lemma listener_body_timeout w :
  arrival (next_tick w) = PollTimeout →
  let w' := exec listener_body w in
  eval listener_body w = Ok tt ∧ manager w' = manager w ∧ store w' = store w ∧
  wire w' = wire w ∧ frames w' = frames w ∧ log w' = log w.
Proof.
  unfold next_tick, listener_body. intros Ht.
  destruct w as [[mk ml mm mw] wst wwi wne wpe wfr wuu wcl wla wdr wlo wse wib wpi wps wro wlt].
  unfold get_message; unfold_m; cbn in *. by rewrite Ht.
Qed.

Lemma listener_loop_S fuel w :
  listener_loop (S fuel) w =
    if stop_event w then (Ok tt, w) else (listener_body;; listener_loop fuel) w.
Proof. cbn. unfold mbind, M_bind, gets; cbn. by destruct (stop_event w). Qed.

Lemma listener_loop_stopped fuel w :
  stop_event w = true →
  eval (listener_loop (S fuel)) w = Ok tt ∧ exec (listener_loop (S fuel)) w = w.
Proof. intros H. unfold eval, exec. by rewrite listener_loop_S, H. Qed.

Lemma messages_of_cons t ts : messages_of (t :: ts) = messages_of [t] ++ messages_of ts.
Proof. unfold messages_of. cbn. by destruct (arrival t). Qed.

Lemma listener_loop_run pre : ∀ w t post fuel,
  stop_event w = false → inbox w = pre ++ t :: post →
  Forall (λ t, signal t = false) pre → signal t = true →
  (length pre + 1 < fuel)%nat →
  let r := eval (listener_loop fuel) w in
  let w' := exec (listener_loop fuel) w in
  r ≠ OutOfFuel ∧
  ∃ n, (n ≤ length pre + 1)%nat ∧ inbox w' = drop n (inbox w) ∧
       forwarded (log w') = forwarded (log w) ++ messages_of (take n (inbox w)) ∧
       (r = Ok tt → n = (length pre + 1)%nat).
Proof.
  induction pre as [|t0 pre IH]; intros w t post fuel Hstop Hin Hpre Ht Hfuel; cbn zeta.
  - destruct fuel as [|[|fuel]]; [cbn in Hfuel; lia..|].
    unfold eval, exec. rewrite listener_loop_S, Hstop.
    fold (eval (listener_body;; listener_loop (S fuel)) w).
    fold (exec (listener_body;; listener_loop (S fuel)) w).
    rewrite eval_bind, exec_bind.
    destruct (listener_body_run w) as (Hr & Hi & Hs & Hf).
    assert (next_tick w = t) as Hnt by (unfold next_tick; by rewrite Hin).
    rewrite Hnt, Hstop, Ht in Hs. cbn in Hs. rewrite Hnt in Hf.
    assert (take 1 (inbox w) = [t]) as Htake by (by rewrite Hin).
    destruct (eval listener_body w) as [[]|e|] eqn:Hev; [|..|done].
    + assert (eval (listener_loop (S fuel)) (exec listener_body w) = Ok tt ∧
              exec (listener_loop (S fuel)) (exec listener_body w) = exec listener_body w)
        as [-> ->].
      { by apply listener_loop_stopped. }
      split; [done|].
      exists 1%nat. rewrite Htake. split_and!; [lia|done..].
    + split; [done|]. exists 1%nat. rewrite Htake. split_and!; [lia|done..].
  - destruct fuel as [|fuel]; [cbn in Hfuel; lia|].
    unfold eval, exec. rewrite listener_loop_S, Hstop.
    fold (eval (listener_body;; listener_loop fuel) w).
    fold (exec (listener_body;; listener_loop fuel) w).
    rewrite eval_bind, exec_bind.
    destruct (listener_body_run w) as (Hr & Hi & Hs & Hf).
    apply Forall_cons in Hpre as [Ht0 Hpre].
    assert (next_tick w = t0) as Hnt by (unfold next_tick; by rewrite Hin).
    rewrite Hnt, Hstop, Ht0 in Hs. cbn in Hs. rewrite Hnt in Hf.
    destruct (eval listener_body w) as [[]|e|] eqn:Hev; [|..|done].
    + destruct (IH (exec listener_body w) t post fuel) as (IH1 & n & IH2 & IH3 & IH4 & IH5);
        [done|by rewrite Hi, Hin|done..|cbn in *; lia|].
      split; [done|]. exists (S n). split_and!.
      * cbn in *. lia.
      * rewrite IH3, Hi. by rewrite drop_drop.
      * rewrite IH4, Hf, Hi, Hin. cbn [app drop take]. rewrite drop_0.
        rewrite (messages_of_cons t0 (take _ _)). by rewrite <- app_assoc.
      * intros Hok. rewrite (IH5 Hok). done.
    + split; [done|]. exists 1%nat. split_and!; [cbn; lia|done| |done].
      rewrite Hf, Hin. done.
Qed.

(** C7.  If the cancellation signal is raised during the iteration that
    polls [t] and not before, the relay evaluates its loop condition once per
    iteration, ends after that iteration (it never runs out of fuel given one
    check more than iterations), polls none of the later messages, and has
    passed to [broadcast_local], once each and unchanged, exactly the payloads
    it polled up to there (all of them when it ends without an exception).
    A poll that times out changes neither the manager, the store, the
    commands sent, the frames sent nor the log; and with the signal already
    raised when the condition is evaluated, the loop ends there, with no
    poll and nothing forwarded. *)
Theorem relay_stops_after_signal cfg w pre t post fuel :
  stop_event w = false →
  inbox w = pre ++ t :: post →
  Forall (λ t, signal t = false) pre →
  signal t = true →
  (length pre + 1 < fuel)%nat →
  let r := eval (_broadcast_listener cfg fuel) w in
  let w' := exec (_broadcast_listener cfg fuel) w in
  r ≠ OutOfFuel ∧
  (∃ n, (n ≤ length pre + 1)%nat ∧
        inbox w' = drop n (inbox w) ∧
        forwarded (log w') = forwarded (log w) ++ messages_of (take n (inbox w)) ∧
        (r = Ok tt → n = (length pre + 1)%nat)) ∧
  (∀ w0, arrival (next_tick w0) = PollTimeout →
         eval listener_body w0 = Ok tt ∧
         manager (exec listener_body w0) = manager w0 ∧
         store (exec listener_body w0) = store w0 ∧
         wire (exec listener_body w0) = wire w0 ∧
         frames (exec listener_body w0) = frames w0 ∧
         log (exec listener_body w0) = log w0) ∧
  (∀ w0 fuel0, stop_event w0 = true → listener_loop (S fuel0) w0 = (Ok tt, w0)).
Proof.
  intros Hstop Hin Hpre Ht Hfuel. cbn zeta.
  set (w0 := upd_log (λ l, l ++ [(INFO, ListenerStarted (REDIS_BROADCAST_CHANNEL cfg))]) w).
  destruct (listener_loop_run pre w0 t post fuel) as (H1 & n & H2 & H3 & H4 & H5); try done.
  assert (_broadcast_listener cfg fuel w =
            (listener_loop fuel;; logger_info ListenerStopping) w0) as Hrun by done.
  assert (eval (_broadcast_listener cfg fuel) w =
            eval (listener_loop fuel;; logger_info ListenerStopping) w0) as ->
    by (unfold eval; by rewrite Hrun).
  assert (exec (_broadcast_listener cfg fuel) w =
            exec (listener_loop fuel;; logger_info ListenerStopping) w0) as ->
    by (unfold exec; by rewrite Hrun).
  rewrite eval_bind, exec_bind.
  assert (forwarded (log w0) = forwarded (log w)) as Hf0.
  { unfold w0. cbn. rewrite forwarded_app. cbn. by rewrite app_nil_r. }
  change (inbox w0) with (inbox w) in *. rewrite Hf0 in H4.
  split_and!; [| |apply listener_body_timeout|].
  - by destruct (eval (listener_loop fuel) w0).
  - exists n. destruct (eval (listener_loop fuel) w0) as [[]|e|] eqn:Hev; [|done..].
    set (w1 := exec (listener_loop fuel) w0) in *.
    cbv [exec eval mbind M_bind modify logger_info]. cbn.
    rewrite forwarded_app. cbn. rewrite app_nil_r. done.
  - intros w2 fuel0 Hset. by rewrite listener_loop_S, Hset.
Qed.

(** One message, then the signal during a poll that times out; the message
    behind it stays unpolled. *)
Lemma relay_stops_after_signal_witness :
  let w := relay_world in
  let pre := [Tick false (PollMessage "hi")] in
  let t := Tick true PollTimeout in
  let post := [Tick false (PollMessage "late")] in
  stop_event w = false ∧ inbox w = pre ++ t :: post ∧
  Forall (λ t, signal t = false) pre ∧ signal t = true ∧ (length pre + 1 < 3)%nat ∧
  eval (_broadcast_listener default_config 3) w ≠ OutOfFuel.
Proof.
  intros w pre t post.
  assert (stop_event w = false) as H1 by (by vm_compute).
  assert (inbox w = pre ++ t :: post) as H2 by (by vm_compute).
  assert (Forall (λ t, signal t = false) pre) as H3 by (by repeat constructor).
  assert (signal t = true) as H4 by done.
  assert (length pre + 1 < 3)%nat as H5 by (cbn; lia).
  split; [exact H1|]. split; [exact H2|]. split; [exact H3|]. split; [exact H4|].
  split; [exact H5|].
  destruct (relay_stops_after_signal default_config w pre t post 3 H1 H2 H3 H4 H5) as [R _].
  exact R.
Defined.

(** ** Startup *)

Lemma global_active_count_run w :
  let w' := exec global_active_count w in
  eval global_active_count w =
    (if hd true (net w) then Ok (size (smembers (_redis_set_key (manager w)) w))
     else Raise RedisConnectionError) ∧
  manager w' = manager w ∧ store w' = store w ∧
  wire w' = wire w ++ [SCARD (_redis_set_key (manager w))] ∧
  net w' = drop 1 (net w) ∧ log w' = log w ∧ clock w ≤ clock w' ∧
  stop_event w' = stop_event w ∧ listener_task w' = listener_task w ∧
  inbox w' = inbox w ∧ peer w' = peer w ∧ frames w' = frames w.
Proof. run_life w; repeat split; try done; lia. Qed.

Lemma setup_lifespan_run cfg w :
  let w' := exec (setup_lifespan cfg) w in
  eval (setup_lifespan cfg) w =
    (if hd true (net w) && hd true (drop 1 (net w)) then Ok tt else Raise RedisConnectionError) ∧
  (eval (setup_lifespan cfg) w = Ok tt →
   manager w' = new_manager (WS_CONNECTIONS_KEY cfg) (pid w) ∧
   store w' = delete (WS_CONNECTIONS_KEY cfg) (store w) ∧
   stop_event w' = false ∧ listener_task w' = TaskRunning ∧
   pubsub w' = Some (REDIS_BROADCAST_CHANNEL cfg) ∧
   wire w' = wire w ++ [DEL (WS_CONNECTIONS_KEY cfg); SUBSCRIBE (REDIS_BROADCAST_CHANNEL cfg)]).
Proof. run_life w; repeat split; try done. by rewrite <- app_assoc. Qed.

Lemma listener_body_idle w :
  _connections (manager w) = [] →
  manager (exec listener_body w) = manager w ∧ store (exec listener_body w) = store w.
Proof.
  destruct w as [[mk ml mm mw] wst wwi wne wpe wfr wuu wcl wla wdr wlo wse wib wpi wps wro wlt].
  cbn. intros ->. unfold listener_body, get_message, broadcast_local; unfold_m; cbn.
  by repeat (case_match; simplify_eq/=).
Qed.

Lemma listener_loop_idle fuel : ∀ w,
  _connections (manager w) = [] →
  manager (exec (listener_loop fuel) w) = manager w ∧
  store (exec (listener_loop fuel) w) = store w.
Proof.
  induction fuel as [|fuel IH]; intros w Hnil; [done|].
  unfold exec. rewrite listener_loop_S. destruct (stop_event w); [done|].
  fold (exec (listener_body;; listener_loop fuel) w). rewrite exec_bind.
  destruct (listener_body_idle w Hnil) as [Hm Hs].
  destruct (eval listener_body w); [|done..].
  destruct (IH (exec listener_body w)) as [Hm' Hs']; [by rewrite Hm|].
  by rewrite Hm', Hs'.
Qed.

(** C9.  Whatever the connection-set key held before, once
    [setup_lifespan] has completed the manager is new and bound to that key,
    the key is gone from the store, and [global_active_count] answers 0
    (or raises when the store cannot be reached), both right away and after
    any number of relay iterations with no [connect] in between. *)
Theorem startup_resets_global_count cfg w :
  eval (setup_lifespan cfg) w = Ok tt →
  let w' := exec (setup_lifespan cfg) w in
  manager w' = new_manager (WS_CONNECTIONS_KEY cfg) (pid w) ∧
  smembers (WS_CONNECTIONS_KEY cfg) w' = ∅ ∧
  eval global_active_count w' =
    (if hd true (net w') then Ok 0%nat else Raise RedisConnectionError) ∧
  ∀ fuel,
    let w'' := exec (listener_loop fuel) w' in
    eval global_active_count w'' =
      (if hd true (net w'') then Ok 0%nat else Raise RedisConnectionError).
Proof.
  intros Hok. destruct (setup_lifespan_run cfg w) as [_ Hrun].
  destruct (Hrun Hok) as (Hm & Hs & _). cbn zeta.
  set (w' := exec (setup_lifespan cfg) w) in *.
  assert (∀ w1, manager w1 = manager w' → store w1 = store w' →
            eval global_active_count w1 =
              (if hd true (net w1) then Ok 0%nat else Raise RedisConnectionError)) as Hcount.
  { intros w1 Hm1 Hs1. destruct (global_active_count_run w1) as [-> _].
    unfold smembers, members. rewrite Hm1, Hs1, Hm, Hs. cbn. by rewrite lookup_delete_eq. }
  split_and!; [done| |by apply Hcount|].
  - unfold smembers, members. by rewrite Hs, lookup_delete_eq.
  - intros fuel. apply Hcount; apply listener_loop_idle; by rewrite Hm.
Qed.

(** Startup over a connection set with two stale identifiers. *)
Lemma startup_resets_global_count_witness :
  let w' := exec (setup_lifespan default_config) stale_world in
  smembers "ws:connections" stale_world = {["9:x"; "9:y"]} ∧
  eval (setup_lifespan default_config) stale_world = Ok tt ∧
  smembers "ws:connections" w' = ∅ ∧
  eval global_active_count w' = Ok 0%nat.
Proof.
  intros w'.
  assert (eval (setup_lifespan default_config) stale_world = Ok tt) as H by (by vm_compute).
  split; [by vm_compute|]. split; [exact H|].
  destruct (startup_resets_global_count default_config stale_world H) as (_ & R2 & R3 & _).
  split; [exact R2|]. subst w'. rewrite R3. by vm_compute.
Defined.

(** ** The drain loop and shutdown *)






